(** * The ReactPlayer debugger page of [src/routes/player.tsx]

    A shallow embedding of the one component of the repository: the
    [useLocalStorageState] hook, the callback log kept by [addLog], the
    playback callback handlers, the manual seek and the deferred
    pause-and-play action.

    The component is a set of event handlers over React state cells, the
    browser's [window.localStorage], a clock and a timer queue.  Handlers are
    written in a small state-and-exception monad [JS] over the record
    [World]; everything the browser, the JavaScript library and the player
    supply ([JSON], [Date], [Number.prototype.toFixed], the [ReactPlayer]
    instance, the storage quota) is a field of the class [Host]. *)

From Stdlib Require Import NArith Floats.PrimFloat.
From stdpp Require Import gmap strings list pretty.

(* The literal 0.8 is read as the nearest binary64, as JavaScript reads it. *)
Set Warnings "-register-all,-inexact-float".
Open Scope string_scope.

(** ** Values of the host language *)

(** A JavaScript [number] is an IEEE 754 binary64, as the kernel's floats. *)
Definition number : Type := float.

(** What [JSON.parse] can return and [JSON.stringify] is given in this
    program: TypeScript's types are erased, so a state cell read back from
    storage holds whatever value the stored text denotes. *)
Inductive json : Type :=
  | JNull
  | JBool (b : bool)
  | JNum (x : number)
  | JStr (s : string)
  | JArr (xs : list json)
  | JObj (fields : list (string * json)).

(** The exceptions of the host that the program can meet. *)
Inductive exn : Type :=
  | ReferenceError      (* [window] is not defined *)
  | SecurityError       (* access to [localStorage] is denied *)
  | QuotaExceededError  (* [setItem] has no room *)
  | SyntaxError.        (* [JSON.parse] of a malformed text *)

(** How a call ends: with a value, or with a thrown exception. *)
Inductive completion (A : Type) : Type :=
  | Normal (a : A)
  | Throw (e : exn).
Arguments Normal {A} a.
Arguments Throw {A} e.

(** ** The records of the source *)

(** [interface LogEntry] *)
Record LogEntry : Type := mkLogEntry {
  timestamp : string;
  event : string;
  data : string;
}.

#[global] Instance LogEntry_eq_dec : EqDecision LogEntry.
Proof. solve_decision. Defined.

(** [interface PlayerState] *)
Record PlayerState : Type := mkPlayerState {
  duration : number;
  played : number;
  playedSeconds : number;
  loaded : number;
  loadedSeconds : number;
}.

(** [interface ProgressState]; its fields carry the prefix [progress_]
    because [PlayerState] has fields of the same names. *)
Record ProgressState : Type := mkProgressState {
  progress_played : number;
  progress_playedSeconds : number;
  progress_loaded : number;
  progress_loadedSeconds : number;
}.

(** ** The host *)

(** [window.localStorage]: either every access throws, or it is a map from
    keys to texts. *)
Inductive LocalStorage : Type :=
  | Blocked
  | Available (items : gmap string string).

(** What the environment supplies.  [quota_exceeded m k v] tells whether
    [setItem(k, v)] on the storage holding [m] throws; [Player] is the
    [ReactPlayer] instance behind [playerRef], [unknown] the type of the
    value an [onError] callback receives. *)
Class Host : Type := {
  JSON_stringify : json → string;
  JSON_parse : string → completion json;
  toLocaleTimeString : N → string;
  toFixed : number → nat → string;
  quota_exceeded : gmap string string → string → string → bool;
  unknown : Type;
  String_ : unknown → string;
  Player : Type;
  getCurrentTime : Player → number;
  getDuration : Player → number;
  player_seekTo : number → Player → Player;
}.

(** The callbacks handed to [setTimeout].  The program has one: the arrow
    function [() => { setIsPlaying(true); }] of [testBatchPauseAndPlay]. *)
Inductive callback : Type :=
  | ResumePlaying.

#[global] Instance callback_eq_dec : EqDecision callback.
Proof. solve_decision. Defined.

(** A pending timer: the time (in ms) at which it is due, and its callback. *)
Definition timer : Type := N * callback.

Section Component.
Context `{host : Host}.

(** ** The world: host state and the state cells of the component

    [window = None] stands for [typeof window === "undefined"].  The four
    cells of [useLocalStorageState] have type [json]: [JSON.parse]'s result
    is stored unchecked.  A state setter is modelled at the call: no handler
    of the component reads a cell after setting it, so the value React
    commits after the handler is the value written here. *)
Record World : Type := mkWorld {
  window : option LocalStorage;
  now : N;
  timers : list timer;
  playerRef : option Player;
  isPlaying : json;
  volume : json;
  hiddenVideo : json;
  muted : json;
  url : string;
  callbackLogs : list LogEntry;
  playerState : PlayerState;
}.

Definition set_window (x : option LocalStorage) (w : World) : World :=
  mkWorld x (now w) (timers w) (playerRef w) (isPlaying w) (volume w)
    (hiddenVideo w) (muted w) (url w) (callbackLogs w) (playerState w).
Definition set_now (x : N) (w : World) : World :=
  mkWorld (window w) x (timers w) (playerRef w) (isPlaying w) (volume w)
    (hiddenVideo w) (muted w) (url w) (callbackLogs w) (playerState w).
Definition set_timers (x : list timer) (w : World) : World :=
  mkWorld (window w) (now w) x (playerRef w) (isPlaying w) (volume w)
    (hiddenVideo w) (muted w) (url w) (callbackLogs w) (playerState w).
Definition set_playerRef (x : option Player) (w : World) : World :=
  mkWorld (window w) (now w) (timers w) x (isPlaying w) (volume w)
    (hiddenVideo w) (muted w) (url w) (callbackLogs w) (playerState w).
Definition set_isPlaying (x : json) (w : World) : World :=
  mkWorld (window w) (now w) (timers w) (playerRef w) x (volume w)
    (hiddenVideo w) (muted w) (url w) (callbackLogs w) (playerState w).
Definition set_volume (x : json) (w : World) : World :=
  mkWorld (window w) (now w) (timers w) (playerRef w) (isPlaying w) x
    (hiddenVideo w) (muted w) (url w) (callbackLogs w) (playerState w).
Definition set_hiddenVideo (x : json) (w : World) : World :=
  mkWorld (window w) (now w) (timers w) (playerRef w) (isPlaying w) (volume w)
    x (muted w) (url w) (callbackLogs w) (playerState w).
Definition set_muted (x : json) (w : World) : World :=
  mkWorld (window w) (now w) (timers w) (playerRef w) (isPlaying w) (volume w)
    (hiddenVideo w) x (url w) (callbackLogs w) (playerState w).
Definition set_url (x : string) (w : World) : World :=
  mkWorld (window w) (now w) (timers w) (playerRef w) (isPlaying w) (volume w)
    (hiddenVideo w) (muted w) x (callbackLogs w) (playerState w).
Definition set_callbackLogs (x : list LogEntry) (w : World) : World :=
  mkWorld (window w) (now w) (timers w) (playerRef w) (isPlaying w) (volume w)
    (hiddenVideo w) (muted w) (url w) x (playerState w).
Definition set_playerState (x : PlayerState) (w : World) : World :=
  mkWorld (window w) (now w) (timers w) (playerRef w) (isPlaying w) (volume w)
    (hiddenVideo w) (muted w) (url w) (callbackLogs w) x.

(** ** The monad of handlers

    A computation takes the world and gives a completion and the world it
    leaves; a thrown exception keeps the effects made before it. *)
Definition JS (A : Type) : Type := World → completion A * World.

#[export] Instance JS_ret : MRet JS := λ A a w, (Normal a, w).

#[export] Instance JS_bind : MBind JS := λ A B k m w,
  match m w with
  | (Normal a, w') => k a w'
  | (Throw e, w') => (Throw e, w')
  end.

(** [try { m } catch (e) { h }] *)
Definition try_catch {A} (m : JS A) (h : exn → JS A) : JS A := λ w,
  match m w with
  | (Normal a, w') => (Normal a, w')
  | (Throw e, w') => h e w'
  end.

Definition gets {A} (f : World → A) : JS A := λ w, (Normal (f w), w).
Definition modify (f : World → World) : JS unit := λ w, (Normal tt, f w).
Definition lift {A} (c : completion A) : JS A := λ w, (c, w).

(** The world a handler leaves, whether it returned or threw. *)
Definition exec {A} (m : JS A) (w : World) : World := (m w).2.

(** ** The browser: storage, clock, timers *)

(** [typeof window === "undefined"] *)
Definition typeof_window_undefined : JS bool :=
  gets (λ w, if window w is None then true else false).

(** [window.localStorage.getItem(key)]; [None] is JavaScript's [null]. *)
Definition localStorage_getItem (key : string) : JS (option string) := λ w,
  match window w with
  | None => (Throw ReferenceError, w)
  | Some Blocked => (Throw SecurityError, w)
  | Some (Available m) => (Normal (m !! key), w)
  end.

(** [window.localStorage.setItem(key, value)] *)
Definition localStorage_setItem (key value : string) : JS unit := λ w,
  match window w with
  | None => (Throw ReferenceError, w)
  | Some Blocked => (Throw SecurityError, w)
  | Some (Available m) =>
      if quota_exceeded m key value then (Throw QuotaExceededError, w)
      else (Normal tt, set_window (Some (Available (<[key:=value]> m))) w)
  end.

(** [new Date().toLocaleTimeString()] *)
Definition Date_toLocaleTimeString : JS string :=
  gets (λ w, toLocaleTimeString (now w)).

(** [setTimeout(cb, delay)]: the timer joins the queue behind the pending
    ones, due [delay] ms from now. *)
Definition setTimeout (cb : callback) (delay : N) : JS unit :=
  modify (λ w, set_timers (timers w ++ [((now w + delay)%N, cb)]) w).

(** ** [useLocalStorageState] *)

(** The initialiser given to [useState]: the first value of the cell. *)
Definition useLocalStorageState_init (key : string) (initialValue : json)
    : JS json :=
  undef ← typeof_window_undefined;
  if undef : bool then mret initialValue
  else
    try_catch
      (item ← localStorage_getItem key;
       match item with
       | Some text => lift (JSON_parse text)
       | None => mret initialValue
       end)
      (λ _, mret initialValue).

(** [setValue], for the cell whose React setter is [setState]. *)
Definition setValue (key : string) (setState : json → World → World)
    (value : json) : JS unit :=
  try_catch
    (localStorage_setItem key (JSON_stringify value))
    (λ _, mret tt);;
  modify (setState value).

(** The four instances of the hook in [ReactPlayerDebugger]. *)
Definition setIsPlaying (value : bool) : JS unit :=
  setValue "isPlaying" set_isPlaying (JBool value).
Definition setVolume (value : number) : JS unit :=
  setValue "volume" set_volume (JNum value).
Definition setHiddenVideo (value : bool) : JS unit :=
  setValue "hiddenVideo" set_hiddenVideo (JBool value).
Definition setMuted (value : bool) : JS unit :=
  setValue "muted" set_muted (JBool value).

(** ** The callback log *)

(** The updater [(prev) => [logEntry, ...prev].slice(0, 50)]. *)
Definition addLog_update (logEntry : LogEntry) (prev : list LogEntry)
    : list LogEntry :=
  take 50 (logEntry :: prev).

(** [addLog(event, data)]; the default [data = {}] is [JObj []]. *)
Definition addLog (event : string) (data : json) : JS unit :=
  timestamp ← Date_toLocaleTimeString;
  let logEntry := mkLogEntry timestamp event (JSON_stringify data) in
  modify (λ w, set_callbackLogs (addLog_update logEntry (callbackLogs w)) w).

(** ** The playback callbacks *)

Definition handlePlay : JS unit := addLog "onPlay" (JObj []).

Definition handlePause : JS unit := addLog "onPause" (JObj []).

Definition handleReady : JS unit :=
  addLog "onReady" (JObj [("player", JStr "ready")]).

Definition handleStart : JS unit :=
  addLog "onStart" (JObj []);;
  current ← gets playerRef;
  match current with
  | Some player =>
      let currentTime := getCurrentTime player in
      addLog "onStart - getCurrentTime" (JObj [("currentTime", JNum currentTime)])
  | None => mret tt
  end.

Definition handleProgress (progress : ProgressState) : JS unit :=
  modify (set_playerState {|
    duration := progress_loaded progress;
    played := progress_played progress;
    playedSeconds := progress_playedSeconds progress;
    loaded := progress_loaded progress;
    loadedSeconds := progress_loadedSeconds progress;
  |});;
  addLog "onProgress" (JObj [
    ("playedSeconds", JStr (toFixed (progress_playedSeconds progress) 2));
    ("played", JStr (toFixed (progress_played progress * 100)%float 2 +:+ "%"))
  ]).

Definition handleDuration (duration : number) : JS unit :=
  addLog "onDuration" (JObj [("duration", JNum duration)]).

Definition handleError (error : unknown) : JS unit :=
  addLog "onError" (JObj [("error", JStr (String_ error))]).

Definition handleEnded : JS unit :=
  addLog "onEnded" (JObj []);;
  setIsPlaying false.

Definition handleSeek (seconds : number) : JS unit :=
  addLog "onSeek" (JObj [("seconds", JNum seconds)]).

(** ** The controls *)

Definition seekTo (seconds : number) : JS unit :=
  current ← gets playerRef;
  match current with
  | Some player =>
      modify (set_playerRef (Some (player_seekTo seconds player)));;
      addLog "Manual seekTo" (JObj [("seconds", JNum seconds)])
  | None => mret tt
  end.

(** The [onClick] of the button "Seek to Middle". *)
Definition seekToMiddle : JS unit :=
  current ← gets playerRef;
  match current with
  | Some player =>
      let duration := getDuration player in
      seekTo (duration / 2)%float
  | None => mret tt
  end.

Definition testBatchPauseAndPlay : JS unit :=
  setIsPlaying false;;
  setTimeout ResumePlaying 500.

(** The [onClick] of the button "Clear Logs". *)
Definition clearLogs : JS unit := modify (set_callbackLogs []).

(** ** The first render *)

Definition initial_playerState : PlayerState := {|
  duration := 0%float; played := 0%float; playedSeconds := 0%float;
  loaded := 0%float; loadedSeconds := 0%float;
|}.

(** The state of a fresh instance of [ReactPlayerDebugger]: every
    [useState] and [useRef] takes its initial value; storage, clock and
    timers are the host's and stay. *)
Definition mount : JS unit :=
  v ← useLocalStorageState_init "isPlaying" (JBool true);
  modify (set_isPlaying v);;
  v ← useLocalStorageState_init "volume" (JNum 0.5%float);
  modify (set_volume v);;
  v ← useLocalStorageState_init "hiddenVideo" (JBool false);
  modify (set_hiddenVideo v);;
  v ← useLocalStorageState_init "muted" (JBool false);
  modify (set_muted v);;
  modify (set_playerRef None);;
  modify (set_url "https://www.youtube.com/watch?v=8Pa9x9fZBtY");;
  modify (set_callbackLogs []);;
  modify (set_playerState initial_playerState).

(** ** The event loop *)

Definition run_callback (cb : callback) : JS unit :=
  match cb with
  | ResumePlaying => setIsPlaying true
  end.

(** The timers of [ts] that are due at time [t], oldest registration first. *)
Definition due (t : N) (ts : list timer) : list timer :=
  filter (λ tm : timer, (tm.1 ≤ t)%N) ts.

Definition pending (t : N) (ts : list timer) : list timer :=
  filter (λ tm : timer, ¬ (tm.1 ≤ t)%N) ts.

(** The callbacks of the timers [ts] run one after the other, each to
    completion; an exception of a callback does not stop the next. *)
Definition run_callbacks (ts : list timer) (w : World) : World :=
  foldl (λ w tm, exec (run_callback tm.2) w) w ts.

(** [ms] milliseconds pass: the clock advances, the timers that have become
    due leave the queue and their callbacks run.  The result is the list of
    the timers that fired. *)
Definition elapse (ms : N) : JS (list timer) := λ w,
  let t := (now w + ms)%N in
  let ts := due t (timers w) in
  let w' := set_now t (set_timers (pending t (timers w)) w) in
  (Normal ts, run_callbacks ts w').

(** What the environment does to the mounted page: time passes, React sets
    and clears [playerRef], the player calls back, the user acts. *)
Inductive Event : Type :=
  | Elapse (ms : N)
  | Attach (player : Player)
  | Detach
  | OnReady
  | OnStart
  | OnPlay
  | OnPause
  | OnEnded
  | OnError (error : unknown)
  | OnProgress (progress : ProgressState)
  | OnDuration (duration : number)
  | OnSeek (seconds : number)
  | ChangeUrl (value : string)
  | ChangePlaying (checked : bool)
  | ChangeMuted (checked : bool)
  | ChangeVolume (value : number)
  | ChangeHiddenVideo (checked : bool)
  | ClickBatchPauseAndPlay
  | ClickSeekToStart
  | ClickSeekTo30
  | ClickSeekTo60
  | ClickSeekToMiddle
  | ClickClearLogs.

(** The wiring of the JSX: which code an event runs. *)
Definition dispatch (e : Event) : JS unit :=
  match e with
  | Elapse ms => elapse ms;; mret tt
  | Attach player => modify (set_playerRef (Some player))
  | Detach => modify (set_playerRef None)
  | OnReady => handleReady
  | OnStart => handleStart
  | OnPlay => handlePlay
  | OnPause => handlePause
  | OnEnded => handleEnded
  | OnError error => handleError error
  | OnProgress progress => handleProgress progress
  | OnDuration duration => handleDuration duration
  | OnSeek seconds => handleSeek seconds
  | ChangeUrl value => modify (set_url value)
  | ChangePlaying checked => setIsPlaying checked
  | ChangeMuted checked => setMuted checked
  | ChangeVolume value => setVolume value
  | ChangeHiddenVideo checked => setHiddenVideo checked
  | ClickBatchPauseAndPlay => testBatchPauseAndPlay
  | ClickSeekToStart => seekTo 0%float
  | ClickSeekTo30 => seekTo 30%float
  | ClickSeekTo60 => seekTo 60%float
  | ClickSeekToMiddle => seekToMiddle
  | ClickClearLogs => clearLogs
  end.

(** The page after a sequence of events, each handled to completion. *)
Definition run (es : list Event) (w : World) : World :=
  foldl (λ w e, exec (dispatch e) w) w es.

(** The timers whose callbacks an event runs, and a sequence of events. *)
Definition fired (e : Event) (w : World) : list timer :=
  match e with
  | Elapse ms => if (elapse ms w).1 is Normal ts then ts else []
  | _ => []
  end.

Fixpoint fired_during (es : list Event) (w : World) : list timer :=
  match es with
  | [] => []
  | e :: es => fired e w ++ fired_during es (exec (dispatch e) w)
  end.

(** The time that passes during a sequence of events. *)
Definition elapsed (es : list Event) : N :=
  foldr (λ e t, match e with Elapse ms => (ms + t)%N | _ => t end) 0%N es.

(** How many of the events are clicks on "Test Batch Pause and Play". *)
Definition triggers (es : list Event) : nat :=
  foldr (λ e n, if e is ClickBatchPauseAndPlay then S n else n) 0 es.

(** The events whose code has no call of [addLog]: the passing of time, the
    player reference being set, the inputs, the trigger and "Clear Logs". *)
Definition appends_nothing (e : Event) : bool :=
  match e with
  | Elapse _ | Attach _ | Detach
  | ChangeUrl _ | ChangePlaying _ | ChangeMuted _ | ChangeVolume _
  | ChangeHiddenVideo _ | ClickBatchPauseAndPlay | ClickClearLogs => true
  | _ => false
  end.

(** The entry that [addLog(event, data)] builds on the world [w]. *)
Definition logEntry_at (w : World) (event : string) (data : json) : LogEntry :=
  mkLogEntry (toLocaleTimeString (now w)) event (JSON_stringify data).

End Component.

(** ** Sequences of [addLog] calls *)

Section Calls.
Context `{host : Host}.

(** A call [addLog(event, data)], with what the clock reads when it is made. *)
Record Call : Type := mkCall {
  call_time : N;
  call_event : string;
  call_data : json;
}.

(** The entry the call builds. *)
Definition entry_of (c : Call) : LogEntry :=
  mkLogEntry (toLocaleTimeString (call_time c)) (call_event c)
    (JSON_stringify (call_data c)).

Definition addLog_at (w : World) (c : Call) : World :=
  exec (addLog (call_event c) (call_data c)) (set_now (call_time c) w).

(** The calls of [cs] made one after the other, the first of the list first. *)
Definition addLog_all (cs : list Call) (w : World) : World :=
  foldl addLog_at w cs.

End Calls.

(** ** The cells of [useLocalStorageState] and what storage holds for them *)

Section Cells.
Context `{host : Host}.

(** The four state cells that [ReactPlayerDebugger] keeps with
    [useLocalStorageState]: what the hook returns as [state] and what its
    [setState] writes. *)
Inductive Cell : Type :=
  | IsPlaying
  | Volume
  | HiddenVideo
  | Muted.

Definition state (c : Cell) : World → json :=
  match c with
  | IsPlaying => isPlaying
  | Volume => volume
  | HiddenVideo => hiddenVideo
  | Muted => muted
  end.

Definition setState (c : Cell) : json → World → World :=
  match c with
  | IsPlaying => set_isPlaying
  | Volume => set_volume
  | HiddenVideo => set_hiddenVideo
  | Muted => set_muted
  end.

(** The situations in which storage gives no value for [key]: there is no
    [window], access to the storage is denied, the storage has no entry for
    the key, or the entry is a text that [JSON.parse] rejects. *)
Inductive NoStoredValue (key : string) (w : World) : Prop :=
  | no_window :
      window w = None → NoStoredValue key w
  | storage_denied :
      window w = Some Blocked → NoStoredValue key w
  | no_entry m :
      window w = Some (Available m) → m !! key = None → NoStoredValue key w
  | unparsable_entry m text e :
      window w = Some (Available m) → m !! key = Some text →
      JSON_parse text = Throw e → NoStoredValue key w.

End Cells.

(** ** The hook instances, the storage over time, the kinds of events *)

Section Preferences.
Context `{host : Host}.

(** The key and the initial value that [ReactPlayerDebugger] gives to
    [useLocalStorageState] for each cell. *)
Definition cell_key (c : Cell) : string :=
  match c with
  | IsPlaying => "isPlaying"
  | Volume => "volume"
  | HiddenVideo => "hiddenVideo"
  | Muted => "muted"
  end.

Definition cell_initialValue (c : Cell) : json :=
  match c with
  | IsPlaying => JBool true
  | Volume => JNum 0.5%float
  | HiddenVideo => JBool false
  | Muted => JBool false
  end.

(** The first value of a cell on the world [w]: what its initialiser
    returns there. *)
Definition first_state (c : Cell) (w : World) : json :=
  match (useLocalStorageState_init (cell_key c) (cell_initialValue c) w).1 with
  | Normal v => v
  | Throw _ => cell_initialValue c
  end.

(** [ls'] is [ls] after writes under the keys of the cells: no storage
    appears or disappears, no key is removed, and the other keys keep their
    texts. *)
Definition storage_extends (ls ls' : option LocalStorage) : Prop :=
  match ls with
  | Some (Available m) =>
      ∃ m', ls' = Some (Available m') ∧ dom m ⊆ dom m' ∧
            ∀ k, (∀ c, k ≠ cell_key c) → m' !! k = m !! k
  | _ => ls' = ls
  end.


Definition is_progress (e : Event) : bool :=
  if e is OnProgress _ then true else false.

(** The cells hold values of the types the source declares for them:
    [isPlaying], [hiddenVideo] and [muted] booleans, [volume] a number. *)
Definition is_boolean (v : json) : bool := if v is JBool _ then true else false.
Definition is_number (v : json) : bool := if v is JNum _ then true else false.

Definition well_typed (w : World) : bool :=
  is_boolean (isPlaying w) && is_number (volume w) &&
  is_boolean (hiddenVideo w) && is_boolean (muted w).

End Preferences.

(** ** A host to run the component on

    A small browser for the examples: a JSON codec that writes every value
    but knows the texts of three numbers only and reads back scalars, a
    storage that refuses texts longer than five characters, a clock printed
    in decimal and a player that is its playback position. *)
Module TestHost.

(** A text between double quotes (no character of the examples needs an
    escape). *)
Definition quoted (s : string) : string :=
  String (Ascii.ascii_of_nat 34) (s +:+ String (Ascii.ascii_of_nat 34) "").

Definition number_text (x : number) : string :=
  if (x =? 0.5)%float then "0.5"
  else if (x =? 0.8)%float then "0.8"
  else "0".

Fixpoint stringify (v : json) : string :=
  match v with
  | JNull => "null"
  | JBool true => "true"
  | JBool false => "false"
  | JNum x => number_text x
  | JStr s => quoted s
  | JArr xs => "[" +:+ String.concat "," (map stringify xs) +:+ "]"
  | JObj fields =>
      "{" +:+
      String.concat ","
        (map (λ kv, quoted kv.1 +:+ ":" +:+ stringify kv.2) fields) +:+
      "}"
  end.

Definition parse (text : string) : completion json :=
  if decide (text = "null") then Normal JNull
  else if decide (text = "true") then Normal (JBool true)
  else if decide (text = "false") then Normal (JBool false)
  else if decide (text = "0.5") then Normal (JNum 0.5%float)
  else if decide (text = "0.8") then Normal (JNum 0.8%float)
  else if decide (text = "0") then Normal (JNum 0%float)
  else Throw SyntaxError.

#[export] Instance host : Host := {|
  JSON_stringify := stringify;
  JSON_parse := parse;
  toLocaleTimeString := λ t, pretty t;
  toFixed := λ _ _, "0.00";
  quota_exceeded := λ _ _ value, bool_decide (5 < String.length value);
  unknown := string;
  String_ := λ error, error;
  Player := number;
  getCurrentTime := λ player, player;
  getDuration := λ _, 100%float;
  player_seekTo := λ seconds _, seconds;
|}.

(** A page whose cells hold the defaults, on the storage [ls]. *)
Definition page (ls : option LocalStorage) : World :=
  mkWorld ls 0 [] None (JBool true) (JNum 0.5%float) (JBool false)
    (JBool false) "" [] initial_playerState.

(** Fifty-five calls, one per second, told apart by their timestamps. *)
Definition calls55 : list Call :=
  (λ i : nat, mkCall (N.of_nat i * 1000) "onProgress" (JObj [])) <$> seq 0 55.

(** The entry this host builds for a call. *)
Definition entry : Call → LogEntry := entry_of.

End TestHost.

(** * Properties *)

Close Scope string_scope.

(** ** The callback log *)

Section Log.
Context `{host : Host}.

Lemma addLog_exec (event : string) (data : json) (w : World) :
  exec (addLog event data) w =
  set_callbackLogs
    (addLog_update
       (mkLogEntry (toLocaleTimeString (now w)) event (JSON_stringify data))
       (callbackLogs w)) w.
Proof. reflexivity. Qed.

Lemma addLog_returns (event : string) (data : json) (w : World) :
  (addLog event data w).1 = Normal tt.
Proof. reflexivity. Qed.

Lemma addLog_at_logs (w : World) (c : Call) :
  callbackLogs (addLog_at w c) = addLog_update (entry_of c) (callbackLogs w).
Proof. reflexivity. Qed.

Lemma addLog_update_length (e : LogEntry) (prev : list LogEntry) :
  length (addLog_update e prev) ≤ 50.
Proof. unfold addLog_update. rewrite length_take. lia. Qed.

(** Truncating the older part first changes nothing. *)
Lemma take_app_take {A} (n : nat) (l k : list A) :
  take n (l ++ take n k) = take n (l ++ k).
Proof.
  rewrite !take_app, take_take. f_equal. f_equal. lia.
Qed.

(** The log after the calls [cs], from a log [prev] within the bound. *)
Lemma addLog_all_logs (cs : list Call) (w : World) :
  length (callbackLogs w) ≤ 50 →
  callbackLogs (addLog_all cs w) =
  take 50 (reverse (entry_of <$> cs) ++ callbackLogs w).
Proof.
  revert w. induction cs as [|c cs IH]; intros w Hw.
  - simpl. by rewrite take_ge.
  - change (addLog_all (c :: cs) w) with (addLog_all cs (addLog_at w c)).
    rewrite IH by (rewrite addLog_at_logs; apply addLog_update_length).
    rewrite addLog_at_logs. unfold addLog_update.
    rewrite take_app_take, fmap_cons, reverse_cons, <- app_assoc. done.
Qed.

(** C1: for every sequence of [addLog] calls, made from a log of at most 50
    entries, the log has at most 50 entries and is ordered newest first: it
    is the first 50 of the entries of the calls, last call first, followed by
    the entries it started with; so the entry at position [i] is the one of
    the [i]-th most recent call. *)
Theorem addLog_bounded_newest_first (cs : list Call) (w : World) :
  length (callbackLogs w) ≤ 50 →
  let logs := callbackLogs (addLog_all cs w) in
  length logs ≤ 50 ∧
  logs = take 50 (reverse (entry_of <$> cs) ++ callbackLogs w) ∧
  ∀ i, i < length cs → i < 50 →
    logs !! i = entry_of <$> cs !! (length cs - 1 - i).
Proof.
  intros Hw logs. subst logs. rewrite addLog_all_logs by done.
  split; [rewrite length_take; lia|]. split; [done|].
  intros i Hi Hi50.
  rewrite lookup_take_lt by done.
  rewrite lookup_app_l by (rewrite length_reverse, length_fmap; done).
  rewrite reverse_lookup by (rewrite length_fmap; done).
  rewrite list_lookup_fmap, length_fmap. f_equal. f_equal. lia.
Qed.

End Log.

Lemma addLog_bounded_newest_first_witness :
  let w := TestHost.page None in
  let cs := TestHost.calls55 in
  let logs := callbackLogs (addLog_all cs w) in
  length logs ≤ 50 ∧
  logs = take 50 (reverse (TestHost.entry <$> cs) ++ callbackLogs w) ∧
  ∀ i, i < length cs → i < 50 →
    logs !! i = TestHost.entry <$> cs !! (length cs - 1 - i).
Proof.
  apply (addLog_bounded_newest_first TestHost.calls55 (TestHost.page None)).
  simpl. lia.
Defined.

Section Eviction.
Context `{host : Host}.

(** C2: 55 calls that build 55 distinct entries, made on an empty log, leave
    exactly 50 entries: the entries of the last 50 calls, the last call
    first; the entries of the first 5 calls are gone. *)
Theorem addLog_55_keeps_last_50 (cs : list Call) (w : World) :
  callbackLogs w = [] →
  length cs = 55 →
  NoDup (entry_of <$> cs) →
  let logs := callbackLogs (addLog_all cs w) in
  length logs = 50 ∧
  logs = reverse (entry_of <$> drop 5 cs) ∧
  ∀ c, c ∈ take 5 cs → entry_of c ∉ logs.
Proof.
  intros Hw Hlen Hnd logs.
  assert (Hlogs : logs = reverse (entry_of <$> drop 5 cs)).
  { subst logs. rewrite addLog_all_logs by (rewrite Hw; simpl; lia).
    rewrite Hw, app_nil_r.
    rewrite <- (take_drop 5 cs) at 1.
    rewrite fmap_app, reverse_app, take_app_length'; [done|].
    rewrite length_reverse, length_fmap, length_drop. lia. }
  split; [|split; [done|]].
  - rewrite Hlogs, length_reverse, length_fmap, length_drop. lia.
  - intros c Hc Hin. rewrite Hlogs in Hin.
    rewrite <- (take_drop 5 cs), fmap_app in Hnd.
    apply NoDup_app in Hnd as (_ & Hdisj & _).
    apply (Hdisj (entry_of c)).
    + by apply list_elem_of_fmap_2.
    + rewrite elem_of_reverse in Hin. exact Hin.
Qed.

End Eviction.

Lemma addLog_55_keeps_last_50_witness :
  let cs := TestHost.calls55 in
  let logs := callbackLogs (addLog_all cs (TestHost.page None)) in
  length logs = 50 ∧
  logs = reverse (TestHost.entry <$> drop 5 cs) ∧
  ∀ c, c ∈ take 5 cs → TestHost.entry c ∉ logs.
Proof.
  apply (addLog_55_keeps_last_50 TestHost.calls55 (TestHost.page None)).
  - reflexivity.
  - reflexivity.
  - apply (bool_decide_unpack _). vm_compute. reflexivity.
Defined.

(** ** The persisted cells *)

Ltac unfold_js :=
  unfold setIsPlaying, setVolume, setHiddenVideo, setMuted, setValue,
    useLocalStorageState_init, typeof_window_undefined,
    localStorage_getItem, localStorage_setItem, try_catch, gets, modify,
    lift, exec, mbind, mret, JS_bind, JS_ret in *.

(** Run a computation on a world whose [window] is known by [H]. *)
Ltac run_js H := unfold_js; simpl; repeat (rewrite H; simpl).

Section Store.
Context `{host : Host}.

(** What the initialiser computes when the storage is there. *)
Lemma useLocalStorageState_init_available key initialValue m (w : World) :
  window w = Some (Available m) →
  useLocalStorageState_init key initialValue w =
  (match m !! key with
   | Some text =>
       match JSON_parse text with
       | Normal v => Normal v
       | Throw _ => Normal initialValue
       end
   | None => Normal initialValue
   end, w).
Proof.
  intros Hw. run_js Hw.
  destruct (m !! key) as [text|]; [|done]. by destruct (JSON_parse text).
Qed.

(** The initialiser never throws and leaves the world as it is. *)
Lemma useLocalStorageState_init_returns key initialValue (w : World) :
  ∃ v, useLocalStorageState_init key initialValue w = (Normal v, w).
Proof.
  destruct (window w) as [[|m]|] eqn:Hw.
  - exists initialValue. by run_js Hw.
  - rewrite (useLocalStorageState_init_available _ _ m) by done.
    destruct (m !! key) as [text|]; [destruct (JSON_parse text)|]; eauto.
  - exists initialValue. by run_js Hw.
Qed.

(** C3: for every key and default, the initialiser of
    [useLocalStorageState] returns the default, normally and without
    touching the world, when the storage has no entry for the key, when the
    entry does not parse, and when there is no storage to read (no [window],
    or access denied). *)
Theorem useLocalStorageState_init_default key initialValue (w : World) :
  NoStoredValue key w →
  useLocalStorageState_init key initialValue w = (Normal initialValue, w).
Proof.
  intros [Hw|Hw|m Hw Hm|m text e Hw Hm Hparse].
  - by run_js Hw.
  - by run_js Hw.
  - rewrite (useLocalStorageState_init_available _ _ m) by done. by rewrite Hm.
  - rewrite (useLocalStorageState_init_available _ _ m) by done.
    by rewrite Hm, Hparse.
Qed.

End Store.

Lemma useLocalStorageState_init_default_witness :
  let init w := useLocalStorageState_init (host := TestHost.host)
                  "volume" (JNum 0.5%float) (TestHost.page w) in
  init None = (Normal (JNum 0.5%float), TestHost.page None) ∧
  init (Some (Available ∅)) =
    (Normal (JNum 0.5%float), TestHost.page (Some (Available ∅))) ∧
  init (Some (Available {["volume" := "0.8.1"%string]})) =
    (Normal (JNum 0.5%float),
     TestHost.page (Some (Available {["volume" := "0.8.1"%string]}))).
Proof.
  split; [|split]; apply useLocalStorageState_init_default.
  - by apply no_window.
  - by apply (no_entry _ _ ∅).
  - by apply (unparsable_entry _ _ {["volume" := "0.8.1"%string]}
                "0.8.1"%string SyntaxError).
Defined.

Section Persist.
Context `{host : Host}.

(** What [setValue] leaves, by what the storage does with the write. *)
Lemma setValue_exec key (update : json → World → World) value (w : World) :
  setValue key update value w =
  (Normal tt,
   update value
     match (localStorage_setItem key (JSON_stringify value) w) with
     | (Normal _, w') => w'
     | (Throw _, w') => w'
     end).
Proof.
  unfold setValue, try_catch, modify, mbind, mret, JS_bind, JS_ret.
  by destruct (localStorage_setItem key (JSON_stringify value) w) as [[|] ?].
Qed.

(** A write touches nothing but [window], and a failed write nothing. *)
Lemma localStorage_setItem_frame key text (w : World) :
  set_window (window w) (localStorage_setItem key text w).2 = w ∧
  ∀ e, (localStorage_setItem key text w).1 = Throw e →
       (localStorage_setItem key text w).2 = w.
Proof.
  unfold localStorage_setItem. destruct w as [[[|m]|] ?]; simpl; [done| |done].
  by destruct (quota_exceeded m key text).
Qed.

(** C4: [setValue] returns normally and the cell holds the new value,
    whatever the write to storage did; what it leaves differs from the plain
    update of the cell in [window] at most, and not at all when the write
    threw: the exception is swallowed. *)
Theorem setValue_updates_state key (c : Cell) (value : json) (w : World) :
  let r := setValue key (setState c) value w in
  r.1 = Normal tt ∧
  state c r.2 = value ∧
  set_window (window w) r.2 = setState c value w ∧
  ∀ e, (localStorage_setItem key (JSON_stringify value) w).1 = Throw e →
       r.2 = setState c value w.
Proof.
  intros r. subst r. rewrite setValue_exec. simpl.
  destruct (localStorage_setItem_frame key (JSON_stringify value) w)
    as [Hframe Hfail].
  destruct (localStorage_setItem key (JSON_stringify value) w)
    as [[[]|e] w'] eqn:Hset; simpl in *.
  - split; [done|]. split; [by destruct c|]. split.
    + rewrite <- Hframe at 2. by destruct c.
    + intros e. discriminate.
  - split; [done|]. split; [by destruct c|].
    rewrite (Hfail e eq_refl). split; [by destruct c, w|done].
Qed.

(** The storage after a page load is the storage before it. *)
Lemma mount_window (w : World) : window (exec mount w) = window w.
Proof.
  unfold mount, exec, mbind, JS_bind.
  destruct (useLocalStorageState_init_returns "isPlaying" (JBool true) w)
    as [v1 ->]. simpl.
  destruct (useLocalStorageState_init_returns "volume" (JNum 0.5%float)
              (set_isPlaying v1 w)) as [v2 ->]. simpl.
  destruct (useLocalStorageState_init_returns "hiddenVideo" (JBool false)
              (set_volume v2 (set_isPlaying v1 w))) as [v3 ->]. simpl.
  destruct (useLocalStorageState_init_returns "muted" (JBool false)
              (set_hiddenVideo v3 (set_volume v2 (set_isPlaying v1 w))))
    as [v4 ->]. reflexivity.
Qed.

(** The volume of a freshly loaded page is what the initialiser reads. *)
Lemma mount_volume (w : World) :
  Normal (volume (exec mount w)) =
  (useLocalStorageState_init "volume" (JNum 0.5%float) w).1.
Proof.
  unfold mount, exec, mbind, JS_bind.
  destruct (useLocalStorageState_init_returns "isPlaying" (JBool true) w)
    as [v1 ->]. simpl.
  assert (Hsame : useLocalStorageState_init "volume" (JNum 0.5%float) w =
    (let r := useLocalStorageState_init "volume" (JNum 0.5%float)
                (set_isPlaying v1 w) in (r.1, w))).
  { destruct (window w) as [[|m]|] eqn:Hw.
    - by run_js Hw.
    - by rewrite !(useLocalStorageState_init_available _ _ m).
    - by run_js Hw. }
  rewrite Hsame. simpl.
  destruct (useLocalStorageState_init_returns "volume" (JNum 0.5%float)
              (set_isPlaying v1 w)) as [v2 ->]. simpl.
  destruct (useLocalStorageState_init_returns "hiddenVideo" (JBool false)
              (set_volume v2 (set_isPlaying v1 w))) as [v3 ->]. simpl.
  destruct (useLocalStorageState_init_returns "muted" (JBool false)
              (set_hiddenVideo v3 (set_volume v2 (set_isPlaying v1 w))))
    as [v4 ->]. reflexivity.
Qed.

(** C5: on an empty storage a freshly loaded page has volume 0.5; after
    [setVolume(0.8)] whose write the storage accepts, a freshly loaded page on
    the same storage has volume 0.8, given that [JSON.parse] reads the text
    that [JSON.stringify] writes for 0.8 back as 0.8. *)
Theorem volume_round_trip (w : World) :
  window w = Some (Available ∅) →
  quota_exceeded ∅ "volume" (JSON_stringify (JNum 0.8%float)) = false →
  JSON_parse (JSON_stringify (JNum 0.8%float)) = Normal (JNum 0.8%float) →
  let w0 := exec mount w in
  volume w0 = JNum 0.5%float ∧
  let w1 := exec (setVolume 0.8%float) w0 in
  volume w1 = JNum 0.8%float ∧
  volume (exec mount w1) = JNum 0.8%float.
Proof.
  intros Hw Hroom Hparse w0.
  assert (Hw0 : window w0 = Some (Available ∅))
    by (subst w0; by rewrite mount_window).
  split.
  { assert (H := mount_volume w). fold w0 in H.
    rewrite (useLocalStorageState_init_available _ _ ∅) in H by done.
    rewrite lookup_empty in H. simpl in H. congruence. }
  intros w1.
  assert (Hw1 : w1 = set_volume (JNum 0.8%float)
            (set_window (Some (Available
               {["volume"%string := JSON_stringify (JNum 0.8%float)]})) w0)).
  { subst w1. unfold exec, setVolume. rewrite setValue_exec. simpl.
    unfold localStorage_setItem. rewrite Hw0, Hroom. by rewrite insert_empty. }
  split; [by rewrite Hw1|].
  assert (H := mount_volume w1).
  rewrite (useLocalStorageState_init_available _ _
             {["volume"%string := JSON_stringify (JNum 0.8%float)]}) in H
    by (by rewrite Hw1).
  rewrite lookup_singleton_eq, Hparse in H. simpl in H. congruence.
Qed.

End Persist.

Lemma volume_round_trip_witness :
  let w0 := exec mount (TestHost.page (Some (Available ∅))) in
  volume w0 = JNum 0.5%float ∧
  let w1 := exec (setVolume 0.8%float) w0 in
  volume w1 = JNum 0.8%float ∧
  volume (exec mount w1) = JNum 0.8%float.
Proof.
  apply (volume_round_trip (TestHost.page (Some (Available ∅))));
    reflexivity.
Defined.

(** ** What the handlers leave alone *)

Ltac unfold_handlers :=
  unfold dispatch, handlePlay, handlePause, handleReady, handleStart,
    handleProgress, handleDuration, handleError, handleEnded, handleSeek,
    seekTo, seekToMiddle, testBatchPauseAndPlay, clearLogs, run_callback,
    setTimeout, addLog, Date_toLocaleTimeString in *.

(** Run a handler on a world taken apart, by cases on what the storage and
    the player reference are. *)
Ltac run_handler w :=
  destruct w as [[[|?]|] ? ? [?|] ? ? ? ? ? ? ?];
  unfold_handlers; unfold_js; simpl;
  repeat (case_match; simpl in *; simplify_eq); try done.

Section Frames.
Context `{host : Host}.

(** [setValue] is the update of the cell, on a world that differs from the
    one it was called on in [window] at most. *)
Lemma setValue_world key (update : json → World → World) value (w : World) :
  ∃ ls, exec (setValue key update value) w = update value (set_window ls w).
Proof.
  unfold exec. rewrite setValue_exec. simpl.
  destruct (localStorage_setItem_frame key (JSON_stringify value) w)
    as [Hframe _].
  destruct (localStorage_setItem key (JSON_stringify value) w) as [[|] w'];
    simpl in *; exists (window w'); rewrite <- Hframe; by destruct w'.
Qed.

(** The callbacks of due timers: they leave clock, timers, log, snapshot and
    player reference alone, and the playing flag true if one ran. *)
Lemma run_callbacks_frame (ts : list timer) (w : World) :
  let w' := run_callbacks ts w in
  now w' = now w ∧ timers w' = timers w ∧
  callbackLogs w' = callbackLogs w ∧ playerState w' = playerState w ∧
  playerRef w' = playerRef w ∧
  (ts ≠ [] → isPlaying w' = JBool true).
Proof.
  unfold run_callbacks.
  revert w. induction ts as [|[t []] ts IH]; intros w; simpl; [done|].
  destruct (setValue_world "isPlaying"%string set_isPlaying (JBool true) w)
    as [ls Hrun].
  unfold run_callback, setIsPlaying. rewrite Hrun.
  destruct (IH (set_isPlaying (JBool true) (set_window ls w)))
    as (Hnow & Htimers & Hlogs & Hstate & Href & Hplaying).
  simpl in *. repeat split; try done.
  intros _. destruct ts as [|tm ts]; [done|]. by apply Hplaying.
Qed.

(** What the passing of time does to the page. *)
Lemma dispatch_Elapse (ms : N) (w : World) :
  exec (dispatch (Elapse ms)) w =
  run_callbacks (due (now w + ms) (timers w))
    (set_now (now w + ms)%N (set_timers (pending (now w + ms) (timers w)) w)).
Proof. reflexivity. Qed.

Lemma fired_Elapse (ms : N) (w : World) :
  fired (Elapse ms) w = due (now w + ms) (timers w).
Proof. reflexivity. Qed.

Lemma elapse_frame (ms : N) (w : World) :
  let w' := exec (dispatch (Elapse ms)) w in
  now w' = (now w + ms)%N ∧ timers w' = pending (now w + ms) (timers w) ∧
  callbackLogs w' = callbackLogs w ∧ playerState w' = playerState w ∧
  playerRef w' = playerRef w.
Proof.
  cbv zeta. rewrite dispatch_Elapse.
  destruct (run_callbacks_frame (due (now w + ms) (timers w))
    (set_now (now w + ms)%N (set_timers (pending (now w + ms) (timers w)) w)))
    as (-> & -> & -> & -> & -> & _). done.
Qed.

(** Only the passing of time moves the clock. *)
Lemma dispatch_now (e : Event) (w : World) :
  now (exec (dispatch e) w) =
  match e with Elapse ms => (now w + ms)%N | _ => now w end.
Proof.
  destruct e; try (by run_handler w). apply elapse_frame.
Qed.

(** The timer queue: the passing of time takes the due timers out, the
    trigger puts one in, and nothing else touches it. *)
Lemma dispatch_timers (e : Event) (w : World) :
  timers (exec (dispatch e) w) =
  match e with
  | Elapse ms => pending (now w + ms) (timers w)
  | ClickBatchPauseAndPlay => timers w ++ [((now w + 500)%N, ResumePlaying)]
  | _ => timers w
  end.
Proof.
  destruct e; try (by run_handler w). apply elapse_frame.
Qed.

End Frames.

(** ** The deferred pause-and-play *)

Section Timers.
Context `{host : Host}.

Lemma run_app (es es' : list Event) (w : World) :
  run (es ++ es') w = run es' (run es w).
Proof. apply foldl_app. Qed.

Lemma run_cons (e : Event) (es : list Event) (w : World) :
  run (e :: es) w = run es (exec (dispatch e) w).
Proof. reflexivity. Qed.

Lemma run_snoc (es : list Event) (e : Event) (w : World) :
  run (es ++ [e]) w = exec (dispatch e) (run es w).
Proof. by rewrite run_app. Qed.

(** The clock after a sequence of events. *)
Lemma run_now (es : list Event) (w : World) :
  now (run es w) = (now w + elapsed es)%N.
Proof.
  revert w. induction es as [|e es IH]; intros w.
  - simpl. lia.
  - rewrite run_cons, IH, dispatch_now. destruct e; simpl; lia.
Qed.

(** No cancellation: a timer that is not yet due stays in the queue. *)
Lemma timer_stays_pending (tm : timer) (es : list Event) (w : World) :
  tm ∈ timers w → (now w + elapsed es < tm.1)%N → tm ∈ timers (run es w).
Proof.
  revert w. induction es as [|e es IH]; intros w Hin Hlt; [done|].
  rewrite run_cons. apply IH.
  - rewrite dispatch_timers. destruct e; try done.
    + apply list_elem_of_filter. split; [simpl in Hlt; lia|done].
    + apply elem_of_app. by left.
  - rewrite dispatch_now. destruct e; simpl in *; lia.
Qed.

(** When time passes and a timer is due, the playing flag ends up true. *)
Lemma elapse_due_resumes (tm : timer) (ms : N) (w : World) :
  tm ∈ timers w → (tm.1 ≤ now w + ms)%N →
  isPlaying (exec (dispatch (Elapse ms)) w) = JBool true.
Proof.
  intros Hin Hdue. rewrite dispatch_Elapse.
  apply run_callbacks_frame.
  intros Hnil. assert (Htm : tm ∈ due (now w + ms) (timers w))
    by (by apply list_elem_of_filter).
  rewrite Hnil in Htm. by apply elem_of_nil in Htm.
Qed.

(** Every timer is accounted for: it has fired or it is pending. *)
Lemma timers_conserved (es : list Event) (w : World) :
  length (fired_during es w) + length (timers (run es w)) =
  length (timers w) + triggers es.
Proof.
  revert w. induction es as [|e es IH]; intros w; [simpl; lia|].
  rewrite run_cons. simpl fired_during. rewrite length_app.
  specialize (IH (exec (dispatch e) w)). rewrite dispatch_timers in IH.
  destruct e; simpl in *; try lia.
  - assert (Hsplit : length (due (now w + ms) (timers w)) +
      length (pending (now w + ms) (timers w)) = length (timers w)).
    { rewrite <- length_app. unfold due, pending.
      by rewrite filter_app_complement. }
    lia.
  - rewrite length_app in IH. simpl in IH. lia.
Qed.

(** On a page that starts with no timer, every pending timer is due within
    500 ms. *)
Lemma timers_due_soon (es : list Event) (w : World) :
  Forall (λ tm : timer, (tm.1 ≤ now w + 500)%N) (timers w) →
  Forall (λ tm : timer, (tm.1 ≤ now (run es w) + 500)%N) (timers (run es w)).
Proof.
  revert w. induction es as [|e es IH]; intros w Hw; [done|].
  rewrite run_cons. apply IH. rewrite dispatch_timers, dispatch_now.
  destruct e; try done.
  - apply Forall_forall. intros tm [_ Hin]%list_elem_of_filter.
    rewrite Forall_forall in Hw. specialize (Hw tm Hin). lia.
  - apply Forall_app. split; [done|]. apply Forall_singleton. simpl. lia.
Qed.

Lemma testBatchPauseAndPlay_returns (w : World) :
  (testBatchPauseAndPlay w).1 = Normal tt.
Proof. by run_handler w. Qed.

Lemma testBatchPauseAndPlay_isPlaying (w : World) :
  isPlaying (exec testBatchPauseAndPlay w) = JBool false.
Proof. by run_handler w. Qed.

(** C6: [testBatchPauseAndPlay] returns with the playing flag false and its
    timer queued 500 ms ahead.  Whatever events follow, while less than
    500 ms have passed the timer is pending, and when the 500 ms are over it
    fires and leaves the playing flag true.  No timer is ever cancelled: over
    any sequence of events, the timers fired and the timers pending are the
    timers there were plus one per trigger; and on a page that had none,
    500 ms after the last event all of them have fired. *)
Theorem testBatchPauseAndPlay_pauses_then_resumes (w : World) :
  let w1 := exec testBatchPauseAndPlay w in
  let tm : timer := ((now w + 500)%N, ResumePlaying) in
  (testBatchPauseAndPlay w).1 = Normal tt ∧
  isPlaying w1 = JBool false ∧
  timers w1 = timers w ++ [tm] ∧
  (∀ es ms, (elapsed es < 500)%N → (500 ≤ elapsed es + ms)%N →
     tm ∈ timers (run es w1) ∧
     tm ∈ fired (Elapse ms) (run es w1) ∧
     isPlaying (run (es ++ [Elapse ms]) w1) = JBool true) ∧
  (∀ es, length (fired_during es w) + length (timers (run es w)) =
         length (timers w) + triggers es) ∧
  (∀ es, timers w = [] →
     timers (run (es ++ [Elapse 500]) w) = [] ∧
     length (fired_during (es ++ [Elapse 500]) w) = triggers es).
Proof.
  intros w1 tm.
  assert (Htimers : timers w1 = timers w ++ [tm])
    by apply (dispatch_timers ClickBatchPauseAndPlay).
  assert (Hnow : now w1 = now w)
    by apply (dispatch_now ClickBatchPauseAndPlay).
  split; [apply testBatchPauseAndPlay_returns|].
  split; [apply testBatchPauseAndPlay_isPlaying|].
  split; [done|]. split; [|split].
  - intros es ms Hbefore Hafter.
    assert (Hin : tm ∈ timers (run es w1)).
    { apply timer_stays_pending.
      - rewrite Htimers. apply elem_of_app. right.
        by apply list_elem_of_singleton.
      - rewrite Hnow. simpl. lia. }
    assert (Hdue : (tm.1 ≤ now (run es w1) + ms)%N)
      by (rewrite run_now, Hnow; simpl; lia).
    split; [done|]. split.
    + by apply list_elem_of_filter.
    + rewrite run_snoc. by apply (elapse_due_resumes tm).
  - intros es. apply timers_conserved.
  - intros es Hnone.
    assert (Hempty : timers (run (es ++ [Elapse 500]) w) = []).
    { rewrite run_snoc, (dispatch_timers (Elapse 500)).
      assert (Hsoon := timers_due_soon es w).
      rewrite Hnone in Hsoon. specialize (Hsoon (Forall_nil_2 _)).
      unfold pending. induction Hsoon as [|tm' ts Htm' _ IH]; [done|].
      rewrite filter_cons_False by (intros H; by apply H). apply IH. }
    split; [done|].
    assert (Hcount := timers_conserved (es ++ [Elapse 500]) w).
    rewrite Hempty, Hnone in Hcount. simpl in Hcount.
    replace (triggers (es ++ [Elapse 500])) with (triggers es) in Hcount
      by (unfold triggers; by rewrite foldr_app).
    lia.
Qed.

End Timers.

(** ** The callbacks and the controls *)

Section Handlers.
Context `{host : Host}.

(** C7: on every [onEnded] callback, the handler returns with the playing
    flag false and with an entry named "onEnded", stamped with the time of
    the call, put at the head of the log (which is cut to 50). *)
Theorem handleEnded_logs_and_pauses (w : World) :
  let w' := exec (dispatch OnEnded) w in
  let entry := logEntry_at w "onEnded" (JObj []) in
  (dispatch OnEnded w).1 = Normal tt ∧
  isPlaying w' = JBool false ∧
  callbackLogs w' = take 50 (entry :: callbackLogs w) ∧
  callbackLogs w' !! 0 = Some entry ∧
  event entry = "onEnded"%string.
Proof. by run_handler w. Qed.

(** The events without a call of [addLog] leave the log as it is. *)
Lemma appends_nothing_logs (e : Event) (w : World) :
  appends_nothing e = true →
  e = ClickClearLogs ∨
  callbackLogs (exec (dispatch e) w) = callbackLogs w.
Proof.
  destruct e; try discriminate; intros _; try (right; by run_handler w).
  - right. apply elapse_frame.
  - by left.
Qed.

(** C8: "Clear Logs" leaves the log empty, whatever it held, and the log
    is empty still after any further events that make no call of [addLog]. *)
Theorem clearLogs_empties (es : list Event) (w : World) :
  Forall (λ e, appends_nothing e = true) es →
  callbackLogs (run (ClickClearLogs :: es) w) = [].
Proof.
  rewrite run_cons.
  assert (Hclear : callbackLogs (exec (dispatch ClickClearLogs) w) = [])
    by reflexivity.
  revert Hclear. generalize (exec (dispatch ClickClearLogs) w). clear w.
  induction es as [|e es IH]; intros w Hw Hes; [done|].
  apply Forall_cons in Hes as [He Hes].
  rewrite run_cons. apply IH; [|done].
  destruct (appends_nothing_logs e w He) as [->| ->]; done.
Qed.

(** C9: a progress callback overwrites the snapshot, and puts the loaded
    fraction of the callback (so a number between 0 and 1 when the player
    reports one) in its [duration] field; a duration callback appends its log
    entry and does nothing else.  So after any sequence of events the
    snapshot is the one the page had or the one written by a progress
    callback, with the loaded fraction as [duration]. *)
Theorem playerState_duration_is_loaded (w : World) :
  (∀ progress,
     let s := playerState (exec (dispatch (OnProgress progress)) w) in
     s = mkPlayerState (progress_loaded progress) (progress_played progress)
           (progress_playedSeconds progress) (progress_loaded progress)
           (progress_loadedSeconds progress) ∧
     duration s = progress_loaded progress ∧
     ((0 <=? progress_loaded progress)%float = true →
      (progress_loaded progress <=? 1)%float = true →
      (0 <=? duration s)%float = true ∧ (duration s <=? 1)%float = true)) ∧
  (∀ reported,
     dispatch (OnDuration reported) w =
     (Normal tt,
      set_callbackLogs
        (take 50 (logEntry_at w "onDuration" (JObj [("duration"%string, JNum reported)])
                  :: callbackLogs w)) w) ∧
     playerState (exec (dispatch (OnDuration reported)) w) = playerState w) ∧
  (∀ es,
     playerState (run es w) = playerState w ∨
     ∃ progress, OnProgress progress ∈ es ∧
       duration (playerState (run es w)) = progress_loaded progress ∧
       loaded (playerState (run es w)) = progress_loaded progress).
Proof.
  split; [|split].
  - intros progress s. subst s. by run_handler w.
  - intros reported. by run_handler w.
  - intros es. induction es as [|e es IH] using rev_ind; [by left|].
    rewrite run_snoc.
    assert (Hframe : (∃ progress, e = OnProgress progress) ∨
      playerState (exec (dispatch e) (run es w)) = playerState (run es w)).
    { generalize (run es w). intros w'.
      destruct e; try (right; by run_handler w'); [|left; eauto].
      right. apply elapse_frame. }
    destruct Hframe as [[progress ->]| ->].
    + right. exists progress. split; [apply elem_of_app; right; by left|].
      generalize (run es w). intros w'. by run_handler w'.
    + destruct IH as [->|(progress & Hin & Hd)]; [by left|].
      right. exists progress. split; [|done]. apply elem_of_app. by left.
Qed.

(** C10: without a player behind [playerRef], [seekTo] returns and leaves
    the world as it is: no seek, no log entry.  With a player, it seeks the
    player to the position and then puts a "Manual seekTo" entry at the head
    of the log. *)
Theorem seekTo_needs_player (seconds : number) (w : World) :
  match playerRef w with
  | None => seekTo seconds w = (Normal tt, w)
  | Some player =>
      seekTo seconds w =
      (Normal tt,
       set_callbackLogs
         (take 50 (logEntry_at w "Manual seekTo"
                     (JObj [("seconds"%string, JNum seconds)])
                   :: callbackLogs w))
         (set_playerRef (Some (player_seekTo seconds player)) w))
  end.
Proof. by run_handler w. Qed.

End Handlers.

Lemma clearLogs_empties_witness :
  callbackLogs
    (run (host := TestHost.host)
       [ClickClearLogs; ChangeVolume 0.8%float; ClickBatchPauseAndPlay;
        Elapse 500; Detach]
       (exec (addLog "onPlay" (JObj [])) (TestHost.page None))) = [].
Proof.
  apply (clearLogs_empties (host := TestHost.host)
           [ChangeVolume 0.8%float; ClickBatchPauseAndPlay; Elapse 500; Detach]).
  repeat constructor.
Defined.

(** ** The bound on the log, over all events *)

Section Reachable.
Context `{host : Host}.

(** No event makes the log longer than 50 entries. *)
Lemma dispatch_log_bounded (e : Event) (w : World) :
  length (callbackLogs w) ≤ 50 →
  length (callbackLogs (exec (dispatch e) w)) ≤ 50.
Proof.
  intros Hw. destruct e;
    try (run_handler w; simpl in *; rewrite ?length_take; lia).
  by destruct (elapse_frame ms w) as (_ & _ & -> & _).
Qed.

(** The page never shows more than 50 entries. *)
Lemma run_log_bounded (es : list Event) (w : World) :
  length (callbackLogs w) ≤ 50 →
  length (callbackLogs (run es w)) ≤ 50.
Proof.
  revert w. induction es as [|e es IH]; intros w Hw; [done|].
  rewrite run_cons. by apply IH, dispatch_log_bounded.
Qed.

End Reachable.

(** ** The component on the test host *)

Section Examples.
Import TestHost.

(** A write that the storage refuses: the cell is updated all the same. *)
Example setValue_quota_exceeded :
  let w := page (Some (Available ∅)) in
  let r := setValue "volume" set_volume (JStr "a long text") w in
  r.1 = Normal tt ∧ volume r.2 = JStr "a long text" ∧ window r.2 = window w.
Proof. by vm_compute. Qed.

(** A write that it accepts. *)
Example setVolume_stored :
  window (exec (setVolume 0.8%float) (page (Some (Available ∅)))) =
  Some (Available {["volume"%string := "0.8"%string]}).
Proof. by vm_compute. Qed.

(** The trigger: paused at once, still paused after 499 ms, playing after
    500 ms. *)
Example testBatchPauseAndPlay_timeline :
  isPlaying (run [ClickBatchPauseAndPlay] (page None)) = JBool false ∧
  isPlaying (run [ClickBatchPauseAndPlay; Elapse 499] (page None))
    = JBool false ∧
  isPlaying (run [ClickBatchPauseAndPlay; Elapse 499; Elapse 1] (page None))
    = JBool true.
Proof. by vm_compute. Qed.

(** Two triggers 100 ms apart: both timers fire, 100 ms apart. *)
Example testBatchPauseAndPlay_overlap :
  fired_during
    [ClickBatchPauseAndPlay; Elapse 100; ClickBatchPauseAndPlay;
     Elapse 400; Elapse 100] (page None)
  = [(500%N, ResumePlaying); (600%N, ResumePlaying)].
Proof. by vm_compute. Qed.

(** A play callback at time 0: one entry, with the empty object as data. *)
Example handlePlay_entry :
  callbackLogs (run [OnPlay] (page None)) = [mkLogEntry "0" "onPlay" "{}"].
Proof. by vm_compute. Qed.

(** The start callback with a player at 12.5 s: two entries, newest first. *)
Example handleStart_entries :
  event <$> callbackLogs
    (run [Attach 12.5%float; OnStart] (page None))
  = ["onStart - getCurrentTime"%string; "onStart"%string].
Proof. by vm_compute. Qed.

(** A seek without a player does nothing; with one it moves the player. *)
Example seekTo_examples :
  run [ClickSeekTo30] (page None) = page None ∧
  playerRef (run [Attach 0%float; ClickSeekTo30] (page None))
    = Some 30%float.
Proof. by vm_compute. Qed.

End Examples.

(** * Further properties of the component *)

(** ** Exceptions and the storage *)

Section Robustness.
Context `{host : Host}.

(** The initialiser reads nothing of the world but [window]. *)
Lemma useLocalStorageState_init_window key initialValue (w w' : World) :
  window w' = window w →
  (useLocalStorageState_init key initialValue w').1 =
  (useLocalStorageState_init key initialValue w).1.
Proof.
  intros Hsame. destruct (window w) as [[|m]|] eqn:Hw.
  - transitivity (Normal initialValue); [by run_js Hsame | by run_js Hw].
  - by rewrite !(useLocalStorageState_init_available _ _ m).
  - transitivity (Normal initialValue); [by run_js Hsame | by run_js Hw].
Qed.

Lemma useLocalStorageState_init_first_state (c : Cell) (w w' : World) :
  window w' = window w →
  useLocalStorageState_init (cell_key c) (cell_initialValue c) w' =
  (Normal (first_state c w), w').
Proof.
  intros Hsame. unfold first_state.
  rewrite <- (useLocalStorageState_init_window _ _ w w') by done.
  by destruct (useLocalStorageState_init_returns (cell_key c)
                 (cell_initialValue c) w') as [v ->].
Qed.

(** What the first render leaves: the cells take their first values, the
    rest the initial values of its [useState] and [useRef]. *)
Lemma mount_run (w : World) :
  mount w =
  (Normal tt,
   mkWorld (window w) (now w) (timers w) None
     (first_state IsPlaying w) (first_state Volume w)
     (first_state HiddenVideo w) (first_state Muted w)
     "https://www.youtube.com/watch?v=8Pa9x9fZBtY"%string []
     initial_playerState).
Proof.
  unfold mount, mbind, JS_bind, modify.
  rewrite (useLocalStorageState_init_first_state IsPlaying w) by done.
  rewrite (useLocalStorageState_init_first_state Volume w) by done.
  rewrite (useLocalStorageState_init_first_state HiddenVideo w) by done.
  rewrite (useLocalStorageState_init_first_state Muted w) by done.
  reflexivity.
Qed.


(** X2: a stored text that parses is the first value of the cell, whatever
    the initial value given to the hook and whatever type the cell is
    declared with: what [JSON.parse] returns is not checked. *)
Theorem useLocalStorageState_init_stored key initialValue m text v
    (w : World) :
  window w = Some (Available m) →
  m !! key = Some text →
  JSON_parse text = Normal v →
  useLocalStorageState_init key initialValue w = (Normal v, w).
Proof.
  intros Hw Hm Hparse.
  rewrite (useLocalStorageState_init_available _ _ m) by done.
  by rewrite Hm, Hparse.
Qed.

(** X3: on a storage that can be reached, [setValue] leaves the text of the
    value under the key and every other key as it was when the storage has
    room, and the storage as it was when it has none. *)
Theorem setValue_persists key (c : Cell) value m (w : World) :
  window w = Some (Available m) →
  let text := JSON_stringify value in
  let ls' := window (exec (setValue key (setState c) value) w) in
  if quota_exceeded m key text then ls' = Some (Available m)
  else ∃ m', ls' = Some (Available m') ∧ m' !! key = Some text ∧
             ∀ k, k ≠ key → m' !! k = m !! k.
Proof.
  intros Hw text ls'. subst text ls'.
  unfold exec. rewrite setValue_exec. unfold localStorage_setItem.
  rewrite Hw. destruct (quota_exceeded m key (JSON_stringify value)); simpl.
  - by destruct c.
  - exists (<[key:=JSON_stringify value]> m). split; [by destruct c|].
    split; [apply lookup_insert_eq|].
    intros k Hk. by apply lookup_insert_ne.
Qed.

(** X4: setting a cell to the same value twice leaves what setting it once
    leaves, in the cell and in the storage. *)
Theorem setValue_idempotent key (c : Cell) value (w : World) :
  exec (setValue key (setState c) value)
    (exec (setValue key (setState c) value) w) =
  exec (setValue key (setState c) value) w.
Proof.
  unfold exec. rewrite !setValue_exec. simpl.
  unfold localStorage_setItem.
  destruct w as [[[|m]|] ? ? ? ? ? ? ? ? ? ?]; simpl;
    try (by destruct c).
  destruct (quota_exceeded m key (JSON_stringify value)) eqn:Hfull.
  - destruct c; simpl; by rewrite Hfull.
  - destruct c; simpl;
      (destruct (quota_exceeded (<[key:=JSON_stringify value]> m) key
                  (JSON_stringify value)); simpl;
       [done | by rewrite insert_insert_eq]).
Qed.

End Robustness.

Lemma useLocalStorageState_init_stored_witness :
  let w := TestHost.page (Some (Available {["volume" := "true"]}))%string in
  useLocalStorageState_init (host := TestHost.host)
    "volume" (JNum 0.5%float) w = (Normal (JBool true), w).
Proof.
  apply (useLocalStorageState_init_stored (host := TestHost.host)
           "volume"%string (JNum 0.5%float) {["volume" := "true"]}%string
           "true"%string); reflexivity.
Defined.

Lemma setValue_persists_witness :
  let w := TestHost.page (Some (Available ∅)) in
  let text := @JSON_stringify TestHost.host (JNum 0.8%float) in
  let ls' := window (exec (setValue "volume" (setState Volume)
                             (JNum 0.8%float)) w) in
  if @quota_exceeded TestHost.host ∅ "volume" text
  then ls' = Some (Available ∅)
  else ∃ m', ls' = Some (Available m') ∧ m' !! "volume"%string = Some text ∧
             ∀ k, k ≠ "volume"%string → m' !! k = (∅ : gmap string string) !! k.
Proof.
  apply (setValue_persists (host := TestHost.host) "volume"%string Volume
           (JNum 0.8%float) ∅ (TestHost.page (Some (Available ∅)))).
  reflexivity.
Defined.

(** ** Reloading the page *)

Section Reload.
Context `{host : Host}.

Lemma mount_state (c : Cell) (w : World) :
  state c (exec mount w) = first_state c w.
Proof. unfold exec. rewrite mount_run. by destruct c. Qed.

Lemma first_state_window (c : Cell) (w w' : World) :
  window w' = window w → first_state c w' = first_state c w.
Proof.
  intros Hsame. unfold first_state.
  by rewrite (useLocalStorageState_init_window _ _ w w').
Qed.

Lemma first_state_available (c : Cell) m (w : World) :
  window w = Some (Available m) →
  first_state c w =
  match m !! cell_key c with
  | Some text =>
      match JSON_parse text with
      | Normal v => v
      | Throw _ => cell_initialValue c
      end
  | None => cell_initialValue c
  end.
Proof.
  intros Hw. unfold first_state.
  rewrite (useLocalStorageState_init_available _ _ m) by done.
  destruct (m !! cell_key c) as [text|]; [|done].
  by destruct (JSON_parse text).
Qed.

Lemma first_state_default (c : Cell) (w : World) :
  NoStoredValue (cell_key c) w → first_state c w = cell_initialValue c.
Proof.
  intros [Hw|Hw|m Hw Hm|m text e Hw Hm Hparse].
  - unfold first_state. by run_js Hw.
  - unfold first_state. by run_js Hw.
  - rewrite (first_state_available c m) by done. by rewrite Hm.
  - rewrite (first_state_available c m) by done. by rewrite Hm, Hparse.
Qed.

(** The storage that [setValue] leaves. *)
Lemma setValue_window key (c : Cell) value (w : World) :
  window (exec (setValue key (setState c) value) w) =
  match window w with
  | Some (Available m) =>
      if quota_exceeded m key (JSON_stringify value)
      then Some (Available m)
      else Some (Available (<[key:=JSON_stringify value]> m))
  | ls => ls
  end.
Proof.
  unfold exec. rewrite setValue_exec. unfold localStorage_setItem.
  destruct (window w) as [[|m]|] eqn:Hw; simpl; try (by destruct c).
  destruct (quota_exceeded m key (JSON_stringify value)); by destruct c.
Qed.

Lemma cell_key_inj (c c' : Cell) : cell_key c = cell_key c' → c = c'.
Proof. by destruct c, c'. Qed.

(** X5: for every cell and every value that [JSON.parse] reads back from
    its text, a value set while the storage has room is the value of the
    cell on a freshly loaded page. *)
Theorem cell_round_trip (c : Cell) value m (w : World) :
  window w = Some (Available m) →
  quota_exceeded m (cell_key c) (JSON_stringify value) = false →
  JSON_parse (JSON_stringify value) = Normal value →
  state c (exec mount (exec (setValue (cell_key c) (setState c) value) w))
  = value.
Proof.
  intros Hw Hroom Hparse. rewrite mount_state.
  rewrite (first_state_available c (<[cell_key c:=JSON_stringify value]> m))
    by (by rewrite setValue_window, Hw, Hroom).
  by rewrite lookup_insert_eq, Hparse.
Qed.

(** X6: the cells are stored apart: setting one changes nothing of what
    another is on a freshly loaded page, whether the write went through or
    not. *)
Theorem cell_reload_independent (c c' : Cell) value (w : World) :
  c ≠ c' →
  state c' (exec mount (exec (setValue (cell_key c) (setState c) value) w))
  = state c' (exec mount w).
Proof.
  intros Hne. rewrite !mount_state.
  assert (Hls := setValue_window (cell_key c) c value w).
  destruct (window w) as [[|m]|] eqn:Hw;
    try (by apply first_state_window; rewrite Hls).
  destruct (quota_exceeded m (cell_key c) (JSON_stringify value)).
  - apply first_state_window. by rewrite Hls.
  - rewrite (first_state_available c' _ _ Hls).
    rewrite (first_state_available c' _ _ Hw).
    rewrite lookup_insert_ne; [done|].
    intros Hkey. by apply Hne, cell_key_inj.
Qed.

(** X7: on a host that gives no value for any of the four keys (no storage,
    or none of the keys stored, or unreadable texts), the first render shows
    the page playing, at volume 0.5, not muted, the video shown, the first
    URL selected, an empty log, a zero snapshot and no player yet. *)
Theorem mount_defaults (w : World) :
  (∀ c, NoStoredValue (cell_key c) w) →
  exec mount w =
  mkWorld (window w) (now w) (timers w) None
    (JBool true) (JNum 0.5%float) (JBool false) (JBool false)
    "https://www.youtube.com/watch?v=8Pa9x9fZBtY"%string []
    (mkPlayerState 0 0 0 0 0)%float.
Proof.
  intros Hnone. unfold exec. rewrite mount_run. simpl.
  by rewrite !first_state_default.
Qed.

(** X8: when playback ends on a page whose storage has room, the pause is
    stored: a freshly loaded page is paused (given that [JSON.parse] reads
    the text of [false] back), whatever was stored before. *)
Theorem ended_then_reload_paused m (w : World) :
  window w = Some (Available m) →
  quota_exceeded m "isPlaying" (JSON_stringify (JBool false)) = false →
  JSON_parse (JSON_stringify (JBool false)) = Normal (JBool false) →
  isPlaying (exec mount (exec (dispatch OnEnded) w)) = JBool false.
Proof.
  intros Hw Hroom Hparse.
  change (state IsPlaying
    (exec mount
       (exec (setValue (cell_key IsPlaying) (setState IsPlaying) (JBool false))
          (exec (addLog "onEnded" (JObj [])) w))) = JBool false).
  rewrite mount_state.
  rewrite (first_state_available IsPlaying
             (<["isPlaying"%string:=JSON_stringify (JBool false)]> m)).
  - simpl. by rewrite lookup_insert_eq, Hparse.
  - rewrite setValue_window. simpl. by rewrite Hw, Hroom.
Qed.

End Reload.

Lemma cell_round_trip_witness :
  state Muted
    (exec mount
       (exec (setValue "muted" (setState Muted) (JBool true))
          (TestHost.page (Some (Available {["volume" := "0.8"]}))))%string)
  = JBool true.
Proof.
  apply (cell_round_trip (host := TestHost.host) Muted (JBool true)
           {["volume" := "0.8"]}%string); reflexivity.
Defined.

Lemma cell_reload_independent_witness :
  let w := TestHost.page (Some (Available {["volume" := "0.8"]}))%string in
  state Volume
    (exec mount (exec (setValue "muted" (setState Muted) (JBool true)) w))
  = state Volume (exec mount w).
Proof.
  apply (cell_reload_independent (host := TestHost.host) Muted Volume).
  discriminate.
Defined.

Lemma mount_defaults_witness :
  let w := TestHost.page (Some (Available {["volume" := "0.8.1"]}))%string in
  exec mount w =
  mkWorld (window w) (now w) (timers w) None
    (JBool true) (JNum 0.5%float) (JBool false) (JBool false)
    "https://www.youtube.com/watch?v=8Pa9x9fZBtY"%string []
    (mkPlayerState 0 0 0 0 0)%float.
Proof.
  apply (mount_defaults (host := TestHost.host)).
  intros [].
  - by apply (no_entry _ _ {["volume" := "0.8.1"]}%string).
  - by apply (unparsable_entry _ _ {["volume" := "0.8.1"]}%string
                "0.8.1"%string SyntaxError).
  - by apply (no_entry _ _ {["volume" := "0.8.1"]}%string).
  - by apply (no_entry _ _ {["volume" := "0.8.1"]}%string).
Defined.

Lemma ended_then_reload_paused_witness :
  isPlaying
    (exec mount
       (exec (dispatch OnEnded)
          (TestHost.page (Some (Available {["isPlaying" := "true"]}))%string)))
  = JBool false.
Proof.
  apply (ended_then_reload_paused (host := TestHost.host)
           {["isPlaying" := "true"]}%string); reflexivity.
Defined.

(** ** The storage over a session *)

Section Session.
Context `{host : Host}.

Lemma storage_extends_refl ls : storage_extends ls ls.
Proof. destruct ls as [[|m]|]; simpl; [done| |done]. by exists m. Qed.

Lemma storage_extends_trans ls1 ls2 ls3 :
  storage_extends ls1 ls2 → storage_extends ls2 ls3 → storage_extends ls1 ls3.
Proof.
  destruct ls1 as [[|m1]|]; simpl; [by intros ->| |by intros ->].
  intros (m2 & -> & Hdom12 & Hframe12). simpl.
  intros (m3 & -> & Hdom23 & Hframe23).
  exists m3. split; [done|]. split; [set_solver|].
  intros k Hk. by rewrite Hframe23, Hframe12.
Qed.

(** A write of a cell extends the storage. *)
Lemma setValue_extends (c : Cell) value (w : World) :
  storage_extends (window w)
    (window (exec (setValue (cell_key c) (setState c) value) w)).
Proof.
  rewrite setValue_window.
  destruct (window w) as [[|m]|]; simpl; [done| |done].
  destruct (quota_exceeded m (cell_key c) (JSON_stringify value)).
  - by exists m.
  - eexists. split; [done|]. split.
    + rewrite dom_insert_L. set_solver.
    + intros k Hk. apply lookup_insert_ne. intros Heq. by apply (Hk c).
Qed.

Lemma run_callbacks_extends (ts : list timer) (w : World) :
  storage_extends (window w) (window (run_callbacks ts w)).
Proof.
  unfold run_callbacks. revert w.
  induction ts as [|[t []] ts IH]; intros w; simpl;
    [apply storage_extends_refl|].
  eapply storage_extends_trans; [|apply IH].
  apply (setValue_extends IsPlaying).
Qed.

(** Where an event writes: through the setter of one cell, or nowhere. *)
Lemma dispatch_window (e : Event) (w : World) :
  window (exec (dispatch e) w) =
  match e with
  | Elapse ms => window (exec (dispatch (Elapse ms)) w)
  | OnEnded | ClickBatchPauseAndPlay => window (exec (setIsPlaying false) w)
  | ChangePlaying checked => window (exec (setIsPlaying checked) w)
  | ChangeMuted checked => window (exec (setMuted checked) w)
  | ChangeVolume value => window (exec (setVolume value) w)
  | ChangeHiddenVideo checked => window (exec (setHiddenVideo checked) w)
  | _ => window w
  end.
Proof. destruct e; try done; by run_handler w. Qed.

Lemma dispatch_extends (e : Event) (w : World) :
  storage_extends (window w) (window (exec (dispatch e) w)).
Proof.
  destruct e;
    try (rewrite dispatch_window;
         first [ apply storage_extends_refl
               | apply (setValue_extends IsPlaying)
               | apply (setValue_extends Muted)
               | apply (setValue_extends Volume)
               | apply (setValue_extends HiddenVideo) ]).
  rewrite dispatch_Elapse.
  apply (run_callbacks_extends _
    (set_now (now w + ms)%N (set_timers (pending (now w + ms) (timers w)) w))).
Qed.

(** X9: over any sequence of events the page writes to the storage under
    its four keys only: a storage that is absent or denied stays so, and one
    that is there keeps every key it had (the page removes none) and the
    text of every key other than the four. *)
Theorem run_storage_extends (es : list Event) (w : World) :
  storage_extends (window w) (window (run es w)).
Proof.
  revert w. induction es as [|e es IH]; intros w.
  - apply storage_extends_refl.
  - rewrite run_cons. eapply storage_extends_trans; [apply dispatch_extends|].
    apply IH.
Qed.

Lemma setIsPlaying_window (value : bool) (w : World) :
  window (exec (setIsPlaying value) w) =
  match window w with
  | Some (Available m) =>
      if quota_exceeded m "isPlaying" (JSON_stringify (JBool value))
      then Some (Available m)
      else Some (Available
                   (<["isPlaying"%string:=JSON_stringify (JBool value)]> m))
  | ls => ls
  end.
Proof. apply (setValue_window "isPlaying" IsPlaying). Qed.

(** Once the storage holds the text of [true] for the playing flag, the
    callbacks of timers leave the storage as it is. *)
Lemma run_callbacks_window_stable (ts : list timer) m (w : World) :
  window w = Some (Available m) →
  m !! "isPlaying"%string = Some (JSON_stringify (JBool true)) →
  window (run_callbacks ts w) = Some (Available m).
Proof.
  revert w. induction ts as [|[t []] ts IH]; intros w Hw Hm; [done|].
  change (run_callbacks ((t, ResumePlaying) :: ts) w) with
    (run_callbacks ts (exec (setIsPlaying true) w)).
  apply IH; [|done]. rewrite setIsPlaying_window, Hw.
  destruct (quota_exceeded m "isPlaying" (JSON_stringify (JBool true)));
    [done|]. by rewrite insert_id.
Qed.

(** X10: the deferred pause-and-play is stored as it goes: on a storage
    with room for both writes, the trigger leaves the text of [false] under
    "isPlaying", and once 500 ms have passed the text of [true] is there
    instead; the other keys are as they were. *)
Theorem testBatchPauseAndPlay_persists m (w : World) :
  window w = Some (Available m) →
  let paused := JSON_stringify (JBool false) in
  let playing := JSON_stringify (JBool true) in
  quota_exceeded m "isPlaying" paused = false →
  quota_exceeded (<["isPlaying"%string:=paused]> m) "isPlaying" playing
    = false →
  window (run [ClickBatchPauseAndPlay] w) =
    Some (Available (<["isPlaying"%string:=paused]> m)) ∧
  window (run [ClickBatchPauseAndPlay; Elapse 500] w) =
    Some (Available (<["isPlaying"%string:=playing]> m)).
Proof.
  intros Hw paused playing Hroom1 Hroom2.
  assert (Hw1 : window (exec (dispatch ClickBatchPauseAndPlay) w) =
                Some (Available (<["isPlaying"%string:=paused]> m))).
  { rewrite dispatch_window, setIsPlaying_window, Hw. fold paused.
    by rewrite Hroom1. }
  split; [done|].
  change (run [ClickBatchPauseAndPlay; Elapse 500] w) with
    (exec (dispatch (Elapse 500)) (exec (dispatch ClickBatchPauseAndPlay) w)).
  set (w1 := exec (dispatch ClickBatchPauseAndPlay) w) in *.
  rewrite dispatch_Elapse.
  assert (Hdue : ((now w + 500)%N, ResumePlaying)
                   ∈ due (now w1 + 500) (timers w1)).
  { unfold w1. rewrite (dispatch_timers ClickBatchPauseAndPlay),
      (dispatch_now ClickBatchPauseAndPlay).
    apply list_elem_of_filter. split; [simpl; lia|].
    apply elem_of_app. right. by apply list_elem_of_singleton. }
  destruct (due (now w1 + 500) (timers w1)) as [|[t []] ts];
    [by apply elem_of_nil in Hdue|].
  match goal with |- window (run_callbacks _ ?w2) = _ =>
    change (window (run_callbacks ts (exec (setIsPlaying true) w2)) =
      Some (Available (<["isPlaying"%string:=playing]> m)))
  end.
  apply (run_callbacks_window_stable ts).
  - rewrite setIsPlaying_window. simpl.
    rewrite Hw1. fold playing. rewrite Hroom2. by rewrite insert_insert_eq.
  - apply lookup_insert_eq.
Qed.

End Session.

Lemma testBatchPauseAndPlay_persists_witness :
  let w := TestHost.page (Some (Available ∅)) in
  window (run [ClickBatchPauseAndPlay] w) =
    Some (Available {["isPlaying" := "false"]}%string) ∧
  window (run [ClickBatchPauseAndPlay; Elapse 500] w) =
    Some (Available {["isPlaying" := "true"]}%string).
Proof.
  pose proof (testBatchPauseAndPlay_persists (host := TestHost.host) ∅
                (TestHost.page (Some (Available ∅)))
                eq_refl eq_refl eq_refl) as H.
  exact H.
Defined.

(** ** The log and the snapshot over a session *)

Section Page.
Context `{host : Host}.

(** X11: from the first render on, whatever the events, the page never
    holds more than 50 log entries. *)
Theorem page_log_bounded (es : list Event) (w : World) :
  length (callbackLogs (run es (exec mount w))) ≤ 50.
Proof.
  apply run_log_bounded. unfold exec. rewrite mount_run. simpl. lia.
Qed.

(** X12: the log grows by one entry per call until it holds 50, and holds
    50 from then on. *)
Theorem addLog_all_length (cs : list Call) (w : World) :
  length (callbackLogs w) ≤ 50 →
  length (callbackLogs (addLog_all cs w)) =
  50 `min` (length cs + length (callbackLogs w)).
Proof.
  intros Hw. rewrite addLog_all_logs by done.
  by rewrite length_take, length_app, length_reverse, length_fmap.
Qed.


(** X14: "Seek to Middle" does nothing without a player; with one it is
    the manual seek to half the duration the player reports: the player is
    sought there and the seek is logged. *)
Theorem seekToMiddle_halfway (w : World) :
  match playerRef w with
  | None => seekToMiddle w = (Normal tt, w)
  | Some player =>
      let middle := (getDuration player / 2)%float in
      seekToMiddle w = seekTo middle w ∧
      playerRef (exec seekToMiddle w) = Some (player_seekTo middle player) ∧
      callbackLogs (exec seekToMiddle w) !! 0 =
        Some (logEntry_at w "Manual seekTo"
                (JObj [("seconds"%string, JNum middle)]))
  end.
Proof. by run_handler w. Qed.


(** An event other than a progress callback leaves the snapshot alone. *)
Lemma dispatch_playerState (e : Event) (w : World) :
  is_progress e = false →
  playerState (exec (dispatch e) w) = playerState w.
Proof.
  destruct e; try discriminate; intros _; try (by run_handler w).
  apply elapse_frame.
Qed.

(** X16: the snapshot is the one of the last progress callback: each
    progress callback replaces all five fields, with the loaded fraction in
    [duration], and no later event of another kind touches them. *)
Theorem last_progress_wins (es1 es2 : list Event) progress (w : World) :
  Forall (λ e, is_progress e = false) es2 →
  playerState (run (es1 ++ OnProgress progress :: es2) w) =
  mkPlayerState (progress_loaded progress) (progress_played progress)
    (progress_playedSeconds progress) (progress_loaded progress)
    (progress_loadedSeconds progress).
Proof.
  intros Hes2. rewrite run_app, run_cons.
  generalize (run es1 w). clear w. intros w.
  transitivity (playerState (exec (dispatch (OnProgress progress)) w)).
  - generalize (exec (dispatch (OnProgress progress)) w). intros w'.
    revert w'. induction Hes2 as [|e es2 He _ IH]; intros w'; [done|].
    by rewrite run_cons, IH, dispatch_playerState.
  - by run_handler w.
Qed.

(** The callbacks of timers leave the other cells alone and a boolean
    playing flag boolean. *)
Lemma run_callbacks_cells (ts : list timer) (w : World) :
  let w' := run_callbacks ts w in
  volume w' = volume w ∧ hiddenVideo w' = hiddenVideo w ∧
  muted w' = muted w ∧
  (is_boolean (isPlaying w) = true → is_boolean (isPlaying w') = true).
Proof.
  unfold run_callbacks.
  revert w. induction ts as [|[t []] ts IH]; intros w; simpl; [done|].
  destruct (setValue_world "isPlaying"%string set_isPlaying (JBool true) w)
    as [ls Hrun].
  unfold run_callback, setIsPlaying. rewrite Hrun.
  destruct (IH (set_isPlaying (JBool true) (set_window ls w)))
    as (Hvolume & Hhidden & Hmuted & Hplaying).
  simpl in *. repeat split; try done. intros _. by apply Hplaying.
Qed.

Lemma dispatch_well_typed (e : Event) (w : World) :
  well_typed w = true → well_typed (exec (dispatch e) w) = true.
Proof.
  intros Hw.
  destruct e;
    try (run_handler w; unfold well_typed in *; simpl in *;
         rewrite ?andb_true_iff in *; by intuition).
  rewrite dispatch_Elapse. unfold well_typed in *.
  destruct (run_callbacks_cells (due (now w + ms) (timers w))
    (set_now (now w + ms)%N (set_timers (pending (now w + ms) (timers w)) w)))
    as (-> & -> & -> & Hplaying).
  simpl in *. rewrite !andb_true_iff in *.
  destruct Hw as [[[H1 H2] H3] H4]. by rewrite Hplaying.
Qed.

(** X17: the value type of each cell is fixed for the session: on a page
    whose playing, hidden and muted flags are booleans and whose volume is a
    number, they are so after any sequence of events. *)
Theorem cells_keep_types (es : list Event) (w : World) :
  well_typed w = true → well_typed (run es w) = true.
Proof.
  revert w. induction es as [|e es IH]; intros w Hw; [done|].
  rewrite run_cons. by apply IH, dispatch_well_typed.
Qed.

End Page.

Lemma addLog_all_length_witness :
  length (callbackLogs (addLog_all TestHost.calls55 (TestHost.page None))) =
  50 `min` (length TestHost.calls55 + length (callbackLogs (TestHost.page None))).
Proof.
  apply (addLog_all_length TestHost.calls55 (TestHost.page None)).
  simpl. lia.
Defined.


Lemma last_progress_wins_witness :
  let progress := (mkProgressState 0.25 30 0.5 60)%float in
  playerState
    (run (host := TestHost.host)
       ([OnPlay] ++
        OnProgress progress :: [OnDuration 120%float; ClickClearLogs])
       (TestHost.page None)) =
  (mkPlayerState 0.5 0.25 30 0.5 60)%float.
Proof.
  apply (last_progress_wins (host := TestHost.host) [OnPlay]
           [OnDuration 120%float; ClickClearLogs]).
  by repeat constructor.
Defined.

Lemma cells_keep_types_witness :
  well_typed
    (run (host := TestHost.host)
       [ChangeVolume 0.8%float; ClickBatchPauseAndPlay; Elapse 500; OnEnded]
       (TestHost.page (Some (Available ∅)))) = true.
Proof.
  apply (cells_keep_types (host := TestHost.host)). reflexivity.
Defined.

Section NotEarly.
Context `{host : Host}.

(** X18: the resume does not come early: on a page with no other timer,
    less than 500 ms after the trigger the playing flag is still false, no
    callback has run and the timer is still pending. *)
Theorem testBatchPauseAndPlay_not_early (ms : N) (w : World) :
  timers w = [] →
  (ms < 500)%N →
  let es := [ClickBatchPauseAndPlay; Elapse ms] in
  isPlaying (run es w) = JBool false ∧
  fired_during es w = [] ∧
  timers (run es w) = [((now w + 500)%N, ResumePlaying)].
Proof.
  intros Hnone Hms es. subst es.
  set (w1 := exec (dispatch ClickBatchPauseAndPlay) w).
  assert (Htimers : timers w1 = [((now w + 500)%N, ResumePlaying)]).
  { unfold w1. by rewrite (dispatch_timers ClickBatchPauseAndPlay), Hnone. }
  assert (Hnow : now w1 = now w)
    by apply (dispatch_now ClickBatchPauseAndPlay).
  assert (Hdue : due (now w1 + ms) (timers w1) = []).
  { rewrite Htimers, Hnow. unfold due.
    rewrite filter_cons_False by (simpl; lia). done. }
  assert (Hpending : pending (now w1 + ms) (timers w1) = timers w1).
  { rewrite Htimers, Hnow. unfold pending.
    rewrite filter_cons_True by (simpl; lia). done. }
  change (run [ClickBatchPauseAndPlay; Elapse ms] w) with
    (exec (dispatch (Elapse ms)) w1).
  split; [|split].
  - rewrite dispatch_Elapse, Hdue. apply testBatchPauseAndPlay_isPlaying.
  - change (fired_during [ClickBatchPauseAndPlay; Elapse ms] w) with
      (fired (Elapse ms) w1 ++ []).
    by rewrite fired_Elapse, Hdue.
  - by rewrite (dispatch_timers (Elapse ms)), Hpending.
Qed.

End NotEarly.

Lemma testBatchPauseAndPlay_not_early_witness :
  let es := [ClickBatchPauseAndPlay; Elapse 499] in
  let w := TestHost.page None in
  isPlaying (run es w) = JBool false ∧
  fired_during es w = [] ∧
  timers (run es w) = [((now w + 500)%N, ResumePlaying)].
Proof.
  apply (testBatchPauseAndPlay_not_early (host := TestHost.host) 499
           (TestHost.page None)); reflexivity.
Defined.
